(** * Bucket-based spaced repetition: the scheduler of PS1/src/algorithm.ts

    A shallow embedding of [toBucketSets], [getBucketRange], [practice],
    [update], [getHint] and [computeProgress], the properties the
    specification states about them, and further properties read off the
    code.

    Conventions of the embedding.
    - A JavaScript [number] that holds a bucket index, a day or a count is
      an integer [Z]; the one place where the source computes with
      fractions ([computeProgress]) uses IEEE binary64 through [SpecFloat].
    - A [Set<Flashcard>] is the list of its elements in insertion order;
      membership is by object identity, as [Set.prototype.has] has it.
    - A [Map<number, Set<Flashcard>>] is the list of its entries in
      insertion order, which is the order [for ... of] visits them.
    - An in-place mutation is a function from the old value to the new one;
      [practice], which hands a [Set] of its own making back to the caller,
      is embedded over a store of [Set] objects. *)

From Stdlib Require Import ZArith List Bool String Lia SpecFloat Permutation.
Import ListNotations.
Open Scope Z_scope.

(** ** Flashcards and answers *)

(** Modelled from the spec: the [Flashcard] class lives in src/flashcards.ts,
    which is not among the sources.  The spec gives it four immutable fields;
    [new Flashcard(...)] makes an object, and [oid] is that object's
    identity (its address), the only thing a JavaScript [Set] compares. *)
Record Flashcard : Type := mkFlashcard {
  oid   : nat;
  front : string;
  back  : string;
  hint  : string;
  tags  : list string
}.

(** Modelled from the spec: the [AnswerDifficulty] enumeration of
    src/flashcards.ts, closed over three outcomes. *)
Inductive AnswerDifficulty : Type := Wrong | Hard | Easy.

(** [new Flashcard(front, back, hint, tags)]: the allocator hands out the
    next free identity. *)
Definition new_Flashcard (next : nat) (f b h : string) (t : list string)
  : Flashcard * nat :=
  (mkFlashcard next f b h t, S next).

(** SameValueZero on two object references. *)
Definition same_object (a b : Flashcard) : bool := Nat.eqb (oid a) (oid b).


(** ** Set<Flashcard> *)

Module CardSet.

Definition t : Type := list Flashcard.

Definition empty : t := [].

Definition has (s : t) (c : Flashcard) : bool := existsb (same_object c) s.

(** [s.add(c)]: a set keeps one copy, appended on first insertion. *)
Definition add (s : t) (c : Flashcard) : t :=
  if has s c then s else s ++ [c].

(** [s.delete(c)]. *)
Definition delete (s : t) (c : Flashcard) : t :=
  filter (fun x => negb (same_object c x)) s.

Definition size (s : t) : Z := Z.of_nat (List.length s).

(** No two elements of a set are the same object. *)
Definition wf (s : t) : Prop := NoDup (map oid s).

End CardSet.

(** ** Map<number, Set<Flashcard>> *)

Definition BucketMap : Type := list (Z * CardSet.t).

Module JsMap.

Fixpoint get (m : BucketMap) (k : Z) : option CardSet.t :=
  match m with
  | [] => None
  | (k', v) :: rest => if Z.eqb k' k then Some v else get rest k
  end.

Definition has (m : BucketMap) (k : Z) : bool :=
  match get m k with Some _ => true | None => false end.

(** [m.set(k, v)]: an existing key keeps its place in the iteration
    order, a new key goes last. *)
Fixpoint set (m : BucketMap) (k : Z) (v : CardSet.t) : BucketMap :=
  match m with
  | [] => [(k, v)]
  | (k', v') :: rest =>
      if Z.eqb k' k then (k', v) :: rest else (k', v') :: set rest k v
  end.

Definition keys (m : BucketMap) : list Z := map fst m.

(** A [Map] holds each key once. *)
Definition wf (m : BucketMap) : Prop := NoDup (keys m).

End JsMap.

(** ** update *)

(** The search loop of [update] (lines 49-55): visit the entries in order;
    at the first set that has the card, remember its bucket, delete the card
    from that set and stop. *)
Fixpoint find_and_delete (buckets : BucketMap) (card : Flashcard)
  : option Z * BucketMap :=
  match buckets with
  | [] => (None, [])
  | (bucket, cards) :: rest =>
      if CardSet.has cards card
      then (Some bucket, (bucket, CardSet.delete cards card) :: rest)
      else let '(found, rest') := find_and_delete rest card in
           (found, (bucket, cards) :: rest')
  end.

Definition new_bucket (currentBucket : Z) (difficulty : AnswerDifficulty) : Z :=
  match difficulty with
  | Wrong => 0
  | Hard => currentBucket
  | Easy => currentBucket + 1
  end.

(** [buckets.get(newBucket)?.add(card)]: the set stored under the key is
    mutated where it is. *)
Definition add_to_bucket (buckets : BucketMap) (k : Z) (card : Flashcard)
  : BucketMap :=
  match JsMap.get buckets k with
  | Some cards => JsMap.set buckets k (CardSet.add cards card)
  | None => buckets
  end.

(** [if (!buckets.has(newBucket)) buckets.set(newBucket, new Set())] *)
Definition ensure_bucket (buckets : BucketMap) (k : Z) : BucketMap :=
  if JsMap.has buckets k then buckets else JsMap.set buckets k CardSet.empty.

Definition update (buckets : BucketMap) (card : Flashcard)
  (difficulty : AnswerDifficulty) : BucketMap :=
  let '(found, buckets1) := find_and_delete buckets card in
  let currentBucket := match found with Some b => b | None => 0 end in
  let newBucket := new_bucket currentBucket difficulty in
  add_to_bucket (ensure_bucket buckets1 newBucket) newBucket card.

(** The value [currentBucket] has after lines 49-59. *)
Definition current_bucket (M : BucketMap) (c : Flashcard) : Z :=
  match fst (find_and_delete M c) with Some b => b | None => 0 end.

(** The cards of bucket [k]; an absent index is an empty bucket. *)
Definition in_bucket (M : BucketMap) (k : Z) (c : Flashcard) : bool :=
  match JsMap.get M k with
  | Some cards => CardSet.has cards c
  | None => false
  end.

(** The data-model invariant: a flashcard appears in at most one bucket. *)
Definition single_membership (M : BucketMap) : Prop :=
  forall c i j, in_bucket M i c = true -> in_bucket M j c = true -> i = j.

(** A check of the invariant on a given map: no card of one entry is in
    the set of a later entry. *)
Definition disjoint_sets (s1 s2 : CardSet.t) : bool :=
  forallb (fun c => negb (CardSet.has s2 c)) s1.

Fixpoint pairwise_disjoint (M : BucketMap) : bool :=
  match M with
  | [] => true
  | (_, s) :: rest =>
      forallb (fun entry : Z * CardSet.t => disjoint_sets s (snd entry)) rest
      && pairwise_disjoint rest
  end.

(** ** Arrays *)

(** A JavaScript array is the list of its slots; [None] is a hole, which
    reads as [undefined], as does any index outside the array. *)
Module JsArray.

Definition length {A : Type} (a : list (option A)) : Z :=
  Z.of_nat (List.length a).

(** [a[i]] *)
Definition get {A : Type} (a : list (option A)) (i : Z) : option A :=
  if i <? 0 then None
  else match nth_error a (Z.to_nat i) with
       | Some slot => slot
       | None => None
       end.

Fixpoint set_nat {A : Type} (a : list (option A)) (n : nat) (v : A)
  : list (option A) :=
  match a, n with
  | [], O => [Some v]
  | [], S n' => None :: set_nat [] n' v
  | _ :: rest, O => Some v :: rest
  | slot :: rest, S n' => slot :: set_nat rest n' v
  end.

(** [a[i] = v]: inside the array the slot is replaced; past the end the
    array grows, leaving holes; a negative [i] names a property, not a
    slot, and the slots stay as they are. *)
Definition set {A : Type} (a : list (option A)) (i : Z) (v : A)
  : list (option A) :=
  if i <? 0 then a else set_nat a (Z.to_nat i) v.

End JsArray.

Definition SetArray : Type := list (option CardSet.t).

(** ** toBucketSets *)

(** [Math.max(...buckets.keys(), 0)] *)
Definition max_key (buckets : BucketMap) : Z :=
  fold_right Z.max 0 (JsMap.keys buckets).

(** [Array.from({ length: n }, () => new Set())] *)
Definition empty_sets (n : Z) : SetArray :=
  repeat (Some CardSet.empty) (Z.to_nat n).

(** The values of a [BucketMap] are sets, so [flashcards ?? new Set()] is
    [flashcards]. *)
Definition toBucketSets (buckets : BucketMap) : SetArray :=
  let maxBucket := max_key buckets in
  let bucketArray := empty_sets (maxBucket + 1) in
  fold_left
    (fun arr (entry : Z * CardSet.t) =>
       let '(bucket, flashcards) := entry in JsArray.set arr bucket flashcards)
    buckets bucketArray.

(** ** getBucketRange *)

Record BucketRange : Type := mkRange { minBucket : Z; maxBucket : Z }.

(** [buckets[i] && buckets[i].size > 0] for the slot at hand. *)
Definition occupied (slot : option CardSet.t) : bool :=
  match slot with
  | Some cards => 0 <? CardSet.size cards
  | None => false
  end.

(** The [for] loop of [getBucketRange], from index [i] on; [slots] are
    the slots [i], [i+1], ... of the array. *)
Fixpoint range_loop (slots : SetArray) (i : Z) (minB maxB : option Z)
  : option Z * option Z :=
  match slots with
  | [] => (minB, maxB)
  | slot :: rest =>
      if occupied slot
      then range_loop rest (i + 1)
             (match minB with None => Some i | Some _ => minB end) (Some i)
      else range_loop rest (i + 1) minB maxB
  end.

Definition getBucketRange (buckets : SetArray) : option BucketRange :=
  match range_loop buckets 0 None None with
  | (Some mn, Some mx) => Some (mkRange mn mx)
  | _ => None
  end.

(** The slot [n] places after the one the loop is at holds a card. *)
Definition occupied_nth (slots : SetArray) (n : nat) : bool :=
  match nth_error slots n with
  | Some slot => occupied slot
  | None => false
  end.

(** The set at index [i] of the array has a card. *)
Definition nonempty_at (buckets : SetArray) (i : Z) : bool :=
  match JsArray.get buckets i with
  | Some (_ :: _) => true
  | _ => false
  end.

(** ** practice *)

(** The [Set] objects that exist, by address; [new Set()] takes the next
    address. *)
Module Store.

Definition t : Type := list CardSet.t.

Definition get (st : t) (r : nat) : option CardSet.t := nth_error st r.

Definition alloc (st : t) (s : CardSet.t) : t * nat :=
  (st ++ [s], List.length st).

Fixpoint put (st : t) (r : nat) (s : CardSet.t) : t :=
  match st, r with
  | [], _ => []
  | _ :: rest, O => s :: rest
  | x :: rest, S r' => x :: put rest r' s
  end.

(** Every reference held by the array points to an object. *)
Definition closed (st : t) (a : list (option nat)) : Prop :=
  forall r, In (Some r) a -> (r < List.length st)%nat.

End Store.

(** [result.add(card)] on the object at address [result]. *)
Definition add_at (st : Store.t) (result : nat) (card : Flashcard) : Store.t :=
  match Store.get st result with
  | Some s => Store.put st result (CardSet.add s card)
  | None => st
  end.

(** [buckets] holds references to the caller's sets.  The function returns
    the store after the call and the reference it returns. *)
Definition practice (st : Store.t) (buckets : list (option nat)) (day : Z)
  : Store.t * nat :=
  let '(st1, result) := Store.alloc st CardSet.empty in
  if day <? JsArray.length buckets then
    match JsArray.get buckets day with
    | Some r =>
        match Store.get st1 r with
        | Some cards =>
            (fold_left (fun st' card => add_at st' result card) cards st1,
             result)
        | None => (st1, result)
        end
    | None => (st1, result)
    end
  else (st1, result).

(** The set an index of the array denotes: the object the slot points to;
    the empty set for a hole or an index outside the array. *)
Definition set_at (st : Store.t) (buckets : list (option nat)) (i : Z)
  : CardSet.t :=
  match JsArray.get buckets i with
  | Some r => match Store.get st r with Some s => s | None => [] end
  | None => []
  end.

(** ** Numbers with a fraction: IEEE binary64 *)

Module Number.

Definition t : Type := spec_float.

Definition prec : Z := 53.
Definition emax : Z := 1024.

(** An integer as a number (exact below 2^53). *)
Definition of_Z (z : Z) : t := binary_normalize prec emax z 0 false.

Definition div : t -> t -> t := SFdiv prec emax.
Definition mul : t -> t -> t := SFmul prec emax.

(** What [x.toFixed(2)] prints: [NaN], an infinity, a number of 10^21 or
    more as [ToString] prints it, or else a sign and the digits of an
    integer [n] with a point before the last two. *)
Inductive fixed2 : Type :=
| FixedNaN
| FixedInfinity (neg : bool)
| FixedLarge (x : t)
| Fixed (neg : bool) (n : Z).

(** The integer [n] for which [n / 100 - m * 2^e] is closest to zero, the
    larger one when there are two. *)
Definition nearest_hundredths (m : positive) (e : Z) : Z :=
  if 0 <=? e then Z.pos m * 2 ^ e * 100
  else (2 * (Z.pos m * 100) + 2 ^ (- e)) / 2 ^ (1 - e).

(** [m * 2^e >= 10^21] *)
Definition at_least_1e21 (m : positive) (e : Z) : bool :=
  if 0 <=? e then 10 ^ 21 <=? Z.pos m * 2 ^ e
  else 10 ^ 21 * 2 ^ (- e) <=? Z.pos m.

(** [Number.prototype.toFixed] with two fraction digits. *)
Definition toFixed2 (x : t) : fixed2 :=
  match x with
  | S754_nan => FixedNaN
  | S754_infinity s => FixedInfinity s
  | S754_zero _ => Fixed false 0
  | S754_finite s m e =>
      if at_least_1e21 m e then FixedLarge x
      else Fixed s (nearest_hundredths m e)
  end.

(** [parseFloat] on such a string: the number nearest to the decimal. *)
Definition parseFloat (d : fixed2) : t :=
  match d with
  | FixedNaN => S754_nan
  | FixedInfinity s => S754_infinity s
  | FixedLarge x => x
  | Fixed s n =>
      match n with
      | Z.pos p => SFdiv prec emax (S754_finite s p 0) (S754_finite false 100 0)
      | _ => S754_zero s
      end
  end.

End Number.

(** ** computeProgress *)

Record Progress : Type := mkProgress {
  totalCards : Z;
  masteredCards : Z;
  masteryPercentage : Number.t
}.

Definition HistoryEntry : Type := (Flashcard * AnswerDifficulty)%type.

(** The [for] loop of [computeProgress] over the entries that remain. *)
Fixpoint count_loop (entries : BucketMap) (total mastered : Z) : Z * Z :=
  match entries with
  | [] => (total, mastered)
  | (bucket, cards) :: rest =>
      let total' := total + CardSet.size cards in
      let mastered' :=
        if 3 <=? bucket then mastered + CardSet.size cards else mastered in
      count_loop rest total' mastered'
  end.

Definition computeProgress (buckets : BucketMap) (history : list HistoryEntry)
  : Progress :=
  let '(total, mastered) := count_loop buckets 0 0 in
  let percentage :=
    if 0 <? total
    then Number.mul (Number.div (Number.of_Z mastered) (Number.of_Z total))
                    (Number.of_Z 100)
    else Number.of_Z 0 in
  mkProgress total mastered (Number.parseFloat (Number.toFixed2 percentage)).

(** The sum of the sizes of the buckets whose index satisfies [p]. *)
Definition sum_sizes (p : Z -> bool) (M : BucketMap) : Z :=
  fold_right Z.add 0
    (map (fun entry : Z * CardSet.t => CardSet.size (snd entry))
         (filter (fun entry : Z * CardSet.t => p (fst entry)) M)).

(** ** Cards and maps of the scenarios *)

(** Four cards made one after the other, the first two from the same four
    fields, as the tests of [update] make them. *)
Definition card_Q1 : Flashcard :=
  fst (new_Flashcard 0 "Q1" "A1" EmptyString []).
Definition card_Q1_again : Flashcard :=
  fst (new_Flashcard (S (oid card_Q1)) "Q1" "A1" EmptyString []).
Definition card_Q2 : Flashcard :=
  fst (new_Flashcard (S (oid card_Q1_again)) "Q2" "A2" EmptyString []).
Definition card_Q3 : Flashcard :=
  fst (new_Flashcard (S (oid card_Q2)) "Q3" "A3" EmptyString []).


(** [new Map([[0, new Set([card_Q2])], [2, new Set([card_Q1, card_Q3])]])] *)
Definition map_three_cards : BucketMap :=
  [(0, [card_Q2]); (2, [card_Q1; card_Q3])].

(** Three set objects and the array [[s0, s1, s2]] that refers to them. *)
Definition store_three_sets : Store.t := [[card_Q2]; []; [card_Q1; card_Q3]].
Definition array_three_sets : list (option nat) :=
  [Some 0%nat; Some 1%nat; Some 2%nat].

(** ** getHint *)

(** [card.hint.length > 0 ? `Hint: ${card.hint}` : "No hint available"] *)
Definition getHint (card : Flashcard) : string :=
  if 0 <? Z.of_nat (String.length (hint card))
  then ("Hint: " ++ hint card)%string
  else "No hint available"%string.

(** ** Further notions used in the statements *)



(** A map that breaks the invariant: the same card in buckets 1 and 3. *)
Definition map_Q1_twice : BucketMap := [(1, [card_Q1]); (3, [card_Q1])].


(** ** Facts about sets *)

Section CardSetFacts.

Variables (s : CardSet.t) (c c' : Flashcard).

Lemma same_object_refl : same_object c c = true.
Proof. apply Nat.eqb_refl. Qed.

Lemma same_object_sym : same_object c c' = same_object c' c.
Proof. apply Nat.eqb_sym. Qed.

Lemma has_same_object :
  same_object c c' = true -> CardSet.has s c = CardSet.has s c'.
Proof.
  unfold same_object, CardSet.has. intros H%Nat.eqb_eq.
  induction s as [|x xs IH]; simpl; [reflexivity|].
  unfold same_object at 1 3. now rewrite H, IH.
Qed.

Lemma has_app (s2 : CardSet.t) :
  CardSet.has (s ++ s2) c = CardSet.has s c || CardSet.has s2 c.
Proof. apply existsb_app. Qed.

Lemma has_add_same : CardSet.has (CardSet.add s c) c = true.
Proof.
  unfold CardSet.add. destruct (CardSet.has s c) eqn:E; [exact E|].
  rewrite has_app. simpl. rewrite same_object_refl. apply orb_true_r.
Qed.

Lemma has_add_other :
  same_object c c' = false ->
  CardSet.has (CardSet.add s c) c' = CardSet.has s c'.
Proof.
  intros D. unfold CardSet.add. destruct (CardSet.has s c); [reflexivity|].
  unfold CardSet.has. rewrite existsb_app. simpl.
  rewrite same_object_sym in D. rewrite D. now rewrite !orb_false_r.
Qed.

Lemma has_delete_same : CardSet.has (CardSet.delete s c) c = false.
Proof.
  unfold CardSet.has, CardSet.delete.
  induction s as [|x xs IH]; simpl; [reflexivity|].
  destruct (same_object c x) eqn:E; simpl; [exact IH|].
  now rewrite E.
Qed.

Lemma has_delete_other :
  same_object c c' = false ->
  CardSet.has (CardSet.delete s c) c' = CardSet.has s c'.
Proof.
  intros D. unfold CardSet.has, CardSet.delete.
  induction s as [|x xs IH]; simpl; [reflexivity|].
  destruct (same_object c x) eqn:E; simpl.
  - rewrite IH. destruct (same_object c' x) eqn:E'; [|reflexivity].
    exfalso. unfold same_object in *.
    apply Nat.eqb_eq in E, E'. apply Nat.eqb_neq in D. congruence.
  - now rewrite IH.
Qed.

Lemma has_false_oid :
  CardSet.has s c = false <-> ~ In (oid c) (map oid s).
Proof.
  unfold CardSet.has, same_object.
  induction s as [|x xs IH]; simpl; [tauto|].
  rewrite orb_false_iff, IH, Nat.eqb_neq. intuition congruence.
Qed.

(** The two mutations keep a set free of repeated objects. *)
Lemma wf_add : CardSet.wf s -> CardSet.wf (CardSet.add s c).
Proof.
  unfold CardSet.wf, CardSet.add. intros W.
  destruct (CardSet.has s c) eqn:H; [exact W|].
  rewrite map_app. apply NoDup_app; [exact W|repeat constructor; simpl; tauto|].
  intros o Ho [<-|[]]. now apply has_false_oid in H.
Qed.

Lemma wf_delete : CardSet.wf s -> CardSet.wf (CardSet.delete s c).
Proof.
  unfold CardSet.wf, CardSet.delete.
  induction s as [|x xs IH]; simpl; intros W; [constructor|].
  inversion W as [|o l Hnot Hrest]; subst.
  destruct (same_object c x); simpl; [now apply IH|].
  constructor; [|now apply IH].
  intros Hin. apply Hnot. apply in_map_iff in Hin.
  destruct Hin as [y [Hy Hf]]. apply filter_In in Hf.
  apply in_map_iff. exists y. tauto.
Qed.

End CardSetFacts.

(** ** Facts about maps *)

Section JsMapFacts.

Variables (m : BucketMap) (k : Z) (v : CardSet.t).

Lemma get_set_same : JsMap.get (JsMap.set m k v) k = Some v.
Proof.
  induction m as [|[k' v'] rest IH]; simpl.
  - now rewrite Z.eqb_refl.
  - destruct (Z.eqb k' k) eqn:E; simpl; now rewrite E.
Qed.

Lemma get_set_other (j : Z) :
  j <> k -> JsMap.get (JsMap.set m k v) j = JsMap.get m j.
Proof.
  intros D. induction m as [|[k' v'] rest IH]; simpl.
  - destruct (Z.eqb k j) eqn:E; [apply Z.eqb_eq in E; congruence|reflexivity].
  - destruct (Z.eqb k' k) eqn:E; simpl.
    + apply Z.eqb_eq in E. subst k'.
      destruct (Z.eqb k j) eqn:E';
        [apply Z.eqb_eq in E'; congruence|reflexivity].
    + destruct (Z.eqb k' j); [reflexivity|exact IH].
Qed.

Lemma get_In : JsMap.get m k = Some v -> In (k, v) m.
Proof.
  induction m as [|[k' v'] rest IH]; simpl; [discriminate|].
  destruct (Z.eqb k' k) eqn:E.
  - apply Z.eqb_eq in E. intros [= ->]. left. now subst.
  - intros H. right. now apply IH.
Qed.

Lemma get_None_keys : JsMap.get m k = None <-> ~ In k (JsMap.keys m).
Proof.
  induction m as [|[k' v'] rest IH]; simpl; [tauto|].
  destruct (Z.eqb k' k) eqn:E.
  - apply Z.eqb_eq in E. split; [discriminate|]. intros H. exfalso. auto.
  - apply Z.eqb_neq in E. rewrite IH. tauto.
Qed.

Lemma keys_set_present :
  JsMap.has m k = true -> JsMap.keys (JsMap.set m k v) = JsMap.keys m.
Proof.
  unfold JsMap.has. induction m as [|[k' v'] rest IH]; simpl; [discriminate|].
  destruct (Z.eqb k' k) eqn:E; simpl; [reflexivity|].
  intros H. now rewrite IH.
Qed.



End JsMapFacts.

Lemma in_bucket_same_object M k c c' :
  same_object c c' = true -> in_bucket M k c = in_bucket M k c'.
Proof.
  intros H. unfold in_bucket. destruct (JsMap.get M k); [|reflexivity].
  now apply has_same_object.
Qed.

Lemma has_add (s : CardSet.t) (c c' : Flashcard) :
  CardSet.has (CardSet.add s c) c' = CardSet.has s c' || same_object c' c.
Proof.
  destruct (same_object c' c) eqn:E.
  - rewrite orb_true_r. rewrite <- (has_same_object _ c c').
    + apply has_add_same.
    + now rewrite same_object_sym.
  - rewrite orb_false_r. apply has_add_other. now rewrite same_object_sym.
Qed.

Lemma in_bucket_set M k s j c :
  in_bucket (JsMap.set M k s) j c =
  if Z.eqb j k then CardSet.has s c else in_bucket M j c.
Proof.
  unfold in_bucket. destruct (Z.eqb j k) eqn:E.
  - apply Z.eqb_eq in E. subst j. now rewrite get_set_same.
  - apply Z.eqb_neq in E. now rewrite get_set_other.
Qed.

Lemma in_bucket_ensure M k j c :
  in_bucket (ensure_bucket M k) j c = in_bucket M j c.
Proof.
  unfold ensure_bucket, JsMap.has.
  destruct (JsMap.get M k) eqn:G; [reflexivity|].
  rewrite in_bucket_set. destruct (Z.eqb j k) eqn:E; [|reflexivity].
  apply Z.eqb_eq in E. subst j. unfold in_bucket. now rewrite G.
Qed.

Lemma has_ensure M k : JsMap.has (ensure_bucket M k) k = true.
Proof.
  unfold ensure_bucket. destruct (JsMap.has M k) eqn:E; [exact E|].
  unfold JsMap.has. now rewrite get_set_same.
Qed.

Lemma in_bucket_add_to_bucket M k c j c' :
  JsMap.has M k = true ->
  in_bucket (add_to_bucket M k c) j c' =
  (Z.eqb j k && same_object c' c) || in_bucket M j c'.
Proof.
  unfold JsMap.has, add_to_bucket. destruct (JsMap.get M k) as [s|] eqn:G;
    [intros _|discriminate].
  rewrite in_bucket_set. destruct (Z.eqb j k) eqn:E; simpl; [|reflexivity].
  apply Z.eqb_eq in E. subst j. unfold in_bucket. rewrite G, has_add.
  apply orb_comm.
Qed.

(** ** The search loop *)

Lemma update_unfold M c d :
  update M c d =
  let nb := new_bucket (current_bucket M c) d in
  add_to_bucket (ensure_bucket (snd (find_and_delete M c)) nb) nb c.
Proof.
  unfold update, current_bucket. now destruct (find_and_delete M c).
Qed.

Lemma fad_keys M c : JsMap.keys (snd (find_and_delete M c)) = JsMap.keys M.
Proof.
  induction M as [|[b s] rest IH]; simpl; [reflexivity|].
  destruct (CardSet.has s c); simpl; [reflexivity|].
  destruct (find_and_delete rest c) as [f r]. simpl in *. now rewrite IH.
Qed.

Lemma fad_none M c :
  fst (find_and_delete M c) = None ->
  snd (find_and_delete M c) = M /\ forall k, in_bucket M k c = false.
Proof.
  induction M as [|[b s] rest IH]; simpl; [intros _; split; reflexivity|].
  destruct (CardSet.has s c) eqn:H; simpl; [discriminate|].
  destruct (find_and_delete rest c) as [f r]. simpl in *.
  intros F. destruct (IH F) as [-> N]. split; [reflexivity|].
  intros k. unfold in_bucket. simpl. destruct (Z.eqb b k); [exact H|apply N].
Qed.

Lemma fad_some M c b :
  JsMap.wf M -> fst (find_and_delete M c) = Some b -> in_bucket M b c = true.
Proof.
  unfold JsMap.wf.
  induction M as [|[b' s] rest IH]; simpl; [discriminate|].
  intros W. inversion W as [|x l Hnot Hrest]; subst.
  destruct (CardSet.has s c) eqn:H; simpl.
  - intros [= ->]. unfold in_bucket. simpl. now rewrite Z.eqb_refl.
  - destruct (find_and_delete rest c) as [f r]. simpl in *.
    intros F. specialize (IH Hrest F). unfold in_bucket in *. simpl.
    destruct (Z.eqb b' b) eqn:E; [|exact IH].
    apply Z.eqb_eq in E. subst b'.
    destruct (JsMap.get rest b) eqn:G; [|discriminate].
    exfalso. apply Hnot. apply get_In in G.
    now apply (in_map fst) in G.
Qed.

Lemma fad_found M c k :
  in_bucket M k c = true -> exists b, fst (find_and_delete M c) = Some b.
Proof.
  intros H. destruct (fst (find_and_delete M c)) as [b|] eqn:F; [now exists b|].
  apply fad_none in F. destruct F as [_ N]. rewrite N in H. discriminate.
Qed.

Lemma fad_frame M c c' j :
  same_object c c' = false ->
  in_bucket (snd (find_and_delete M c)) j c' = in_bucket M j c'.
Proof.
  intros D. induction M as [|[b s] rest IH]; simpl; [reflexivity|].
  destruct (CardSet.has s c); simpl.
  - unfold in_bucket. simpl. destruct (Z.eqb b j); [|reflexivity].
    now apply has_delete_other.
  - destruct (find_and_delete rest c) as [f r]. simpl in *.
    unfold in_bucket in *. simpl. destruct (Z.eqb b j); [reflexivity|exact IH].
Qed.

(** Under the invariant the card is in no bucket once the loop has run. *)
Lemma fad_removed M c :
  JsMap.wf M ->
  (forall i j, in_bucket M i c = true -> in_bucket M j c = true -> i = j) ->
  forall j, in_bucket (snd (find_and_delete M c)) j c = false.
Proof.
  unfold JsMap.wf.
  induction M as [|[b s] rest IH]; simpl; [reflexivity|].
  intros W U j. inversion W as [|x l Hnot Hrest]; subst.
  assert (Hb : in_bucket ((b, s) :: rest) b c = CardSet.has s c).
  { unfold in_bucket. simpl. now rewrite Z.eqb_refl. }
  assert (Hr : forall i, in_bucket rest i c = true ->
                         in_bucket ((b, s) :: rest) i c = true /\ i <> b).
  { intros i Hi. unfold in_bucket in *. simpl.
    destruct (Z.eqb b i) eqn:E.
    - apply Z.eqb_eq in E. subst i.
      destruct (JsMap.get rest b) eqn:G; [|discriminate].
      exfalso. apply Hnot. apply get_In in G. now apply (in_map fst) in G.
    - apply Z.eqb_neq in E. split; [exact Hi|congruence]. }
  destruct (CardSet.has s c) eqn:H; simpl.
  - unfold in_bucket at 1. simpl. destruct (Z.eqb b j) eqn:E.
    + apply has_delete_same.
    + fold (in_bucket rest j c).
      destruct (in_bucket rest j c) eqn:Hj; [|reflexivity].
      destruct (Hr j Hj) as [Hj' Hne]. exfalso. apply Hne.
      apply U; [exact Hj'|now rewrite Hb].
  - destruct (find_and_delete rest c) as [f r] eqn:F. simpl in *.
    unfold in_bucket at 1. simpl. destruct (Z.eqb b j) eqn:E; [exact H|].
    apply IH; [exact Hrest|].
    intros i1 i2 H1 H2. apply U; now apply Hr.
Qed.


(** Membership after [update], for any card and any bucket. *)
Lemma in_bucket_update M c d j c' :
  in_bucket (update M c d) j c' =
  (Z.eqb j (new_bucket (current_bucket M c) d) && same_object c' c)
  || in_bucket (snd (find_and_delete M c)) j c'.
Proof.
  rewrite update_unfold. cbv zeta.
  rewrite in_bucket_add_to_bucket by apply has_ensure.
  now rewrite in_bucket_ensure.
Qed.

Lemma in_bucket_update_other M c d c' i :
  oid c' <> oid c -> in_bucket (update M c d) i c' = in_bucket M i c'.
Proof.
  intros D.
  assert (D' : same_object c' c = false) by now apply Nat.eqb_neq.
  rewrite in_bucket_update, D', andb_false_r. simpl.
  apply fad_frame. now rewrite same_object_sym.
Qed.

(** Under the invariant the practiced card ends in the new bucket only. *)
Lemma in_bucket_update_same M c d j :
  JsMap.wf M -> single_membership M ->
  in_bucket (update M c d) j c = Z.eqb j (new_bucket (current_bucket M c) d).
Proof.
  intros W S. rewrite in_bucket_update, same_object_refl.
  rewrite fad_removed; [|exact W|intros i1 i2; apply S].
  now rewrite andb_true_r, orb_false_r.
Qed.

Lemma current_bucket_found M c k :
  JsMap.wf M -> single_membership M ->
  in_bucket M k c = true -> current_bucket M c = k.
Proof.
  intros W S Hk. destruct (fad_found M c k Hk) as [b Hb].
  unfold current_bucket. rewrite Hb.
  apply (S c); [now apply fad_some|exact Hk].
Qed.


(** ** Checking the invariant on a given map *)

Lemma disjoint_sets_spec s1 s2 c :
  disjoint_sets s1 s2 = true ->
  CardSet.has s1 c = true -> CardSet.has s2 c = true -> False.
Proof.
  unfold disjoint_sets. rewrite forallb_forall. intros D H1 H2.
  unfold CardSet.has in H1. apply existsb_exists in H1.
  destruct H1 as [x [Hx Hc]]. specialize (D x Hx).
  rewrite <- (has_same_object s2 c x Hc), H2 in D. discriminate.
Qed.

Lemma pairwise_disjoint_sound M :
  JsMap.wf M -> pairwise_disjoint M = true -> single_membership M.
Proof.
  unfold JsMap.wf.
  induction M as [|[k s] rest IH]; intros W P c i j.
  - unfold in_bucket. simpl. discriminate.
  - simpl in P. apply andb_prop in P. destruct P as [P1 P2].
    rewrite forallb_forall in P1.
    inversion W as [|x l Hnot Hrest]; subst.
    unfold in_bucket. cbn [JsMap.get].
    destruct (Z.eqb k i) eqn:Ei, (Z.eqb k j) eqn:Ej.
    + apply Z.eqb_eq in Ei, Ej. congruence.
    + intros Hs. destruct (JsMap.get rest j) as [s'|] eqn:G; [|discriminate].
      intros Hs'. exfalso. apply get_In in G.
      exact (disjoint_sets_spec s s' c (P1 _ G) Hs Hs').
    + destruct (JsMap.get rest i) as [s'|] eqn:G; [|discriminate].
      intros Hs' Hs. exfalso. apply get_In in G.
      exact (disjoint_sets_spec s s' c (P1 _ G) Hs Hs').
    + apply (IH Hrest P2 c i j).
Qed.

Lemma wf_map_three_cards : JsMap.wf map_three_cards.
Proof. repeat constructor; simpl; intuition discriminate. Qed.

Lemma single_membership_map_three_cards : single_membership map_three_cards.
Proof.
  apply pairwise_disjoint_sound; [exact wf_map_three_cards|reflexivity].
Qed.

(** ** update: where the card goes *)



(** ** update: the other cards *)

(** C3. [update M c d] changes the bucket of no card but [c]: a card that
    is another object than [c] is in bucket [i] afterwards exactly when it
    was before.  From [{1: {cardA}}], reporting [Wrong] for [cardA] gives
    a map with [cardA] in bucket 0 only and bucket 1 empty. *)
Theorem update_frame (M : BucketMap) (c : Flashcard) (d : AnswerDifficulty) :
  (forall c' i, oid c' <> oid c ->
     in_bucket (update M c d) i c' = in_bucket M i c')
  /\ (forall cardA,
        update [(1, [cardA])] cardA Wrong = [(1, []); (0, [cardA])]
        /\ forall j, in_bucket (update [(1, [cardA])] cardA Wrong) j cardA
                     = Z.eqb j 0).
Proof.
  split.
  - intros c' i D. now apply in_bucket_update_other.
  - intros cardA.
    assert (E : update [(1, [cardA])] cardA Wrong = [(1, []); (0, [cardA])]).
    { unfold update, find_and_delete, CardSet.has, CardSet.delete, existsb,
        filter, same_object.
      rewrite Nat.eqb_refl. reflexivity. }
    split; [exact E|]. intros j. rewrite E. unfold in_bucket.
    cbn [JsMap.get].
    destruct (Z.eqb_spec 1 j) as [<-|N1]; [reflexivity|].
    destruct (Z.eqb_spec 0 j) as [<-|N0].
    + unfold CardSet.has. cbn [existsb]. now rewrite same_object_refl.
    + symmetry. apply Z.eqb_neq. congruence.
Qed.

Lemma update_frame_witness :
  oid card_Q3 <> oid card_Q1 /\
  in_bucket (update map_three_cards card_Q1 Wrong) 2 card_Q3
  = in_bucket map_three_cards 2 card_Q3.
Proof.
  split; [discriminate|].
  apply (proj1 (update_frame map_three_cards card_Q1 Wrong) card_Q3 2).
  discriminate.
Defined.

(** ** update: the invariant *)



(** ** update: reporting Hard *)

Lemma has_false_keys M k : JsMap.has M k = false <-> ~ In k (JsMap.keys M).
Proof.
  rewrite <- get_None_keys. unfold JsMap.has.
  destruct (JsMap.get M k); split; congruence.
Qed.

Lemma has_same_keys M M' k :
  JsMap.keys M = JsMap.keys M' -> JsMap.has M k = JsMap.has M' k.
Proof.
  intros E. destruct (JsMap.has M' k) eqn:H'.
  - destruct (JsMap.has M k) eqn:H; [reflexivity|].
    apply has_false_keys in H. rewrite E in H.
    apply has_false_keys in H. congruence.
  - apply has_false_keys. rewrite E. now apply has_false_keys.
Qed.

Lemma keys_update_present M c d :
  JsMap.has M (new_bucket (current_bucket M c) d) = true ->
  JsMap.keys (update M c d) = JsMap.keys M.
Proof.
  intros H. rewrite update_unfold. cbv zeta.
  set (nb := new_bucket _ _) in *. set (M1 := snd (find_and_delete M c)).
  assert (H1 : JsMap.has M1 nb = true).
  { rewrite <- H. apply has_same_keys. apply fad_keys. }
  unfold ensure_bucket. rewrite H1. unfold add_to_bucket.
  destruct (JsMap.get M1 nb) eqn:G.
  - rewrite keys_set_present by exact H1. apply fad_keys.
  - apply fad_keys.
Qed.

(** C10. For a map that satisfies the invariant and a card [c] that is in
    one of its buckets, [update M c Hard] leaves every bucket with the same
    cards as before, and the map with the same bucket indices. *)
Theorem update_Hard_identity (M : BucketMap) (c : Flashcard) (k : Z) :
  JsMap.wf M ->
  single_membership M ->
  in_bucket M k c = true ->
  (forall i c', in_bucket (update M c Hard) i c' = in_bucket M i c')
  /\ JsMap.keys (update M c Hard) = JsMap.keys M.
Proof.
  intros W S Hk.
  pose proof (current_bucket_found M c k W S Hk) as Hcur.
  split.
  - intros i c'. destruct (same_object c' c) eqn:E.
    + rewrite !(in_bucket_same_object _ i c' c E).
      rewrite in_bucket_update_same by assumption.
      rewrite Hcur. cbn [new_bucket].
      destruct (Z.eqb_spec i k) as [->|N]; [now rewrite Hk|].
      destruct (in_bucket M i c) eqn:Hi; [|reflexivity].
      exfalso. apply N. exact (S c i k Hi Hk).
    + apply in_bucket_update_other. now apply Nat.eqb_neq.
  - apply keys_update_present. rewrite Hcur. cbn [new_bucket].
    unfold in_bucket in Hk. unfold JsMap.has.
    destruct (JsMap.get M k); [reflexivity|discriminate].
Qed.

Lemma update_Hard_identity_witness :
  JsMap.wf map_three_cards /\ single_membership map_three_cards /\
  in_bucket map_three_cards 2 card_Q1 = true /\
  (forall i c', in_bucket (update map_three_cards card_Q1 Hard) i c'
                = in_bucket map_three_cards i c').
Proof.
  split; [exact wf_map_three_cards|].
  split; [exact single_membership_map_three_cards|].
  split; [reflexivity|].
  exact (proj1 (update_Hard_identity map_three_cards card_Q1 2
                  wf_map_three_cards single_membership_map_three_cards
                  eq_refl)).
Defined.

(** ** update: which cards count as the same card *)




(** ** Arrays *)

Section JsArrayFacts.

Context {A : Type}.







End JsArrayFacts.

(** ** toBucketSets *)








(** ** getBucketRange *)

Lemma occupied_nth_cons slot rest n :
  occupied_nth (slot :: rest) (S n) = occupied_nth rest n.
Proof. reflexivity. Qed.

(** What the loop returns, by the first and the last slot that hold a
    card. *)
Lemma range_loop_spec (slots : SetArray) :
  forall (i : Z) (minB maxB : option Z),
    ((forall n, occupied_nth slots n = false)
     /\ range_loop slots i minB maxB = (minB, maxB))
    \/ (exists a b : nat,
           occupied_nth slots a = true
           /\ occupied_nth slots b = true
           /\ (forall n, occupied_nth slots n = true -> (a <= n <= b)%nat)
           /\ range_loop slots i minB maxB =
              (match minB with
               | Some m => Some m
               | None => Some (i + Z.of_nat a)
               end,
               Some (i + Z.of_nat b))).
Proof.
  induction slots as [|slot rest IH]; intros i minB maxB.
  - left. split; [|reflexivity]. intros [|n]; reflexivity.
  - cbn [range_loop]. destruct (occupied slot) eqn:O.
    + right.
      destruct (IH (i + 1)
                  (match minB with None => Some i | Some _ => minB end)
                  (Some i)) as [[N E]|[a [b [Ha [Hb [Hall E]]]]]].
      * exists 0%nat, 0%nat. repeat split; try exact O.
        -- lia.
        -- destruct n as [|n]; [lia|].
           rewrite occupied_nth_cons, N in H. discriminate.
        -- rewrite E. rewrite Z.add_0_r. now destruct minB.
      * exists 0%nat, (S b). repeat split; try exact O; try exact Hb.
        -- lia.
        -- destruct n as [|n]; [lia|].
           rewrite occupied_nth_cons in H. specialize (Hall n H). lia.
        -- rewrite E. rewrite Z.add_0_r.
           replace (i + 1 + Z.of_nat b) with (i + Z.of_nat (S b)) by lia.
           now destruct minB.
    + destruct (IH (i + 1) minB maxB) as [[N E]|[a [b [Ha [Hb [Hall E]]]]]].
      * left. split; [|exact E]. intros [|n]; [exact O|apply N].
      * right. exists (S a), (S b). repeat split; try assumption.
        -- destruct n as [|n];
             [unfold occupied_nth in H; simpl in H; congruence|].
           rewrite occupied_nth_cons in H. specialize (Hall n H). lia.
        -- destruct n as [|n];
             [unfold occupied_nth in H; simpl in H; congruence|].
           rewrite occupied_nth_cons in H. specialize (Hall n H). lia.
        -- rewrite E.
           replace (i + 1 + Z.of_nat b) with (i + Z.of_nat (S b)) by lia.
           replace (i + 1 + Z.of_nat a) with (i + Z.of_nat (S a)) by lia.
           reflexivity.
Qed.

Lemma nonempty_at_nth buckets i :
  nonempty_at buckets i =
  if i <? 0 then false else occupied_nth buckets (Z.to_nat i).
Proof.
  unfold nonempty_at, JsArray.get, occupied_nth.
  destruct (i <? 0); [reflexivity|].
  destruct (nth_error buckets (Z.to_nat i)) as [[s|]|]; try reflexivity.
  unfold occupied, CardSet.size. destruct s; simpl; [reflexivity|].
  symmetry. apply Z.ltb_lt. lia.
Qed.

Lemma nonempty_at_of_nat buckets n :
  nonempty_at buckets (Z.of_nat n) = occupied_nth buckets n.
Proof.
  rewrite nonempty_at_nth. destruct (Z.ltb_spec (Z.of_nat n) 0); [lia|].
  now rewrite Nat2Z.id.
Qed.

(** C5. [getBucketRange] returns nothing exactly when no set of the array
    holds a card.  Otherwise it returns the least and the greatest index
    whose set holds a card: both sets are non-empty, every index of a
    non-empty set lies between them, and so the first is at most the
    second. *)
Theorem getBucketRange_spec (buckets : SetArray) :
  (getBucketRange buckets = None <->
   forall i, nonempty_at buckets i = false)
  /\ (forall r, getBucketRange buckets = Some r ->
        nonempty_at buckets (minBucket r) = true
        /\ nonempty_at buckets (maxBucket r) = true
        /\ (forall i, nonempty_at buckets i = true ->
                      minBucket r <= i <= maxBucket r)
        /\ minBucket r <= maxBucket r).
Proof.
  unfold getBucketRange.
  destruct (range_loop_spec buckets 0 None None)
    as [[N E]|[a [b [Ha [Hb [Hall E]]]]]]; rewrite E; simpl.
  - split.
    + split; [intros _|reflexivity]. intros i. rewrite nonempty_at_nth.
      destruct (i <? 0); [reflexivity|apply N].
    + discriminate.
  - split.
    + split; [discriminate|]. intros N. exfalso.
      specialize (N (Z.of_nat a)). rewrite nonempty_at_of_nat in N. congruence.
    + intros r [= <-]. simpl. rewrite !nonempty_at_of_nat.
      split; [exact Ha|]. split; [exact Hb|]. split.
      * intros i Hi. rewrite nonempty_at_nth in Hi.
        destruct (Z.ltb_spec i 0); [discriminate|].
        specialize (Hall _ Hi). lia.
      * specialize (Hall a Ha). lia.
Qed.

Lemma getBucketRange_spec_witness :
  getBucketRange (toBucketSets map_three_cards) = Some (mkRange 0 2)
  /\ nonempty_at (toBucketSets map_three_cards) 0 = true
  /\ nonempty_at (toBucketSets map_three_cards) 2 = true
  /\ (forall i, nonempty_at (toBucketSets map_three_cards) i = true ->
                0 <= i <= 2)
  /\ 0 <= 2.
Proof.
  split; [reflexivity|].
  exact (proj2 (getBucketRange_spec (toBucketSets map_three_cards))
               (mkRange 0 2) eq_refl).
Defined.

(** ** practice *)

Lemma store_get_last (st : Store.t) (s : CardSet.t) :
  Store.get (st ++ [s]) (List.length st) = Some s.
Proof.
  unfold Store.get. rewrite nth_error_app2 by lia.
  now rewrite Nat.sub_diag.
Qed.

Lemma store_get_old (st : Store.t) (s : CardSet.t) (r : nat) :
  (r < List.length st)%nat -> Store.get (st ++ [s]) r = Store.get st r.
Proof. intros H. unfold Store.get. now rewrite nth_error_app1. Qed.

Lemma store_put_last (st : Store.t) (s s' : CardSet.t) :
  Store.put (st ++ [s]) (List.length st) s' = st ++ [s'].
Proof. induction st as [|x xs IH]; simpl; [reflexivity|now rewrite IH]. Qed.

(** The copying loop works on the new object alone. *)
Lemma copy_loop (st : Store.t) (cards acc : CardSet.t) :
  fold_left (fun st' card => add_at st' (List.length st) card) cards
            (st ++ [acc])
  = st ++ [fold_left CardSet.add cards acc].
Proof.
  revert acc. induction cards as [|c cs IH]; intros acc; simpl; [reflexivity|].
  unfold add_at at 2. rewrite store_get_last, store_put_last. apply IH.
Qed.

Lemma has_fold_add (cards acc : CardSet.t) (c : Flashcard) :
  CardSet.has (fold_left CardSet.add cards acc) c
  = CardSet.has acc c || CardSet.has cards c.
Proof.
  revert acc. induction cards as [|x xs IH]; intros acc; simpl.
  - now rewrite orb_false_r.
  - rewrite IH, has_add. now rewrite orb_assoc.
Qed.

Lemma array_get_In {A : Type} (a : list (option A)) (i : Z) (x : A) :
  JsArray.get a i = Some x -> In (Some x) a /\ 0 <= i < JsArray.length a.
Proof.
  unfold JsArray.get, JsArray.length.
  destruct (Z.ltb_spec i 0); [discriminate|].
  destruct (nth_error a (Z.to_nat i)) as [slot|] eqn:E; [|discriminate].
  intros ->. split; [now apply nth_error_In in E|].
  assert (Z.to_nat i < List.length a)%nat
    by (apply nth_error_Some; congruence).
  lia.
Qed.

(** C6. [practice buckets day] returns a set with the cards of
    [buckets[day]] when [0 <= day < buckets.length] and an empty set
    otherwise.  The set is a new object: it is none of the objects that
    existed before the call, so none the array refers to, and the objects
    that existed keep their cards. *)
Theorem practice_spec (st : Store.t) (buckets : list (option nat)) (day : Z) :
  Store.closed st buckets ->
  let st' := fst (practice st buckets day) in
  let result := snd (practice st buckets day) in
  Store.get st result = None
  /\ ~ In (Some result) buckets
  /\ (forall r, (r < List.length st)%nat -> Store.get st' r = Store.get st r)
  /\ exists s,
       Store.get st' result = Some s
       /\ (0 <= day < JsArray.length buckets ->
           forall c, CardSet.has s c = CardSet.has (set_at st buckets day) c)
       /\ (~ 0 <= day < JsArray.length buckets -> s = []).
Proof.
  intros C.
  assert (Fresh : Store.get st (List.length st) = None)
    by (apply nth_error_None; lia).
  assert (NotIn : ~ In (Some (List.length st)) buckets)
    by (intros H; apply C in H; lia).
  assert (Shape :
    exists s, practice st buckets day = (st ++ [s], List.length st)
              /\ (0 <= day < JsArray.length buckets ->
                  forall c, CardSet.has s c
                            = CardSet.has (set_at st buckets day) c)
              /\ (~ 0 <= day < JsArray.length buckets -> s = [])).
  { unfold practice, Store.alloc, set_at.
    destruct (Z.ltb_spec day (JsArray.length buckets)) as [Lt|Ge].
    - destruct (JsArray.get buckets day) as [r|] eqn:G.
      + destruct (array_get_In _ _ _ G) as [Hin Hrange].
        pose proof (C r Hin) as Hr.
        rewrite store_get_old by exact Hr.
        destruct (Store.get st r) as [cards|] eqn:Gr.
        * exists (fold_left CardSet.add cards CardSet.empty).
          rewrite copy_loop. split; [reflexivity|]. split.
          -- intros _ c. now rewrite has_fold_add.
          -- intros N. exfalso. auto.
        * exfalso. apply nth_error_None in Gr. lia.
      + exists []. split; [reflexivity|]. split; reflexivity.
    - exists []. split; [reflexivity|]. split; [lia|reflexivity]. }
  destruct Shape as [s [E [Hin Hout]]]. cbv zeta. rewrite E. simpl.
  split; [exact Fresh|]. split; [exact NotIn|]. split.
  - intros r Hr. now apply store_get_old.
  - exists s. split; [apply store_get_last|]. split; assumption.
Qed.

Lemma closed_three_sets : Store.closed store_three_sets array_three_sets.
Proof.
  intros r [H|[H|[H|[]]]]; injection H as <-; simpl; lia.
Qed.

Lemma practice_spec_witness :
  Store.closed store_three_sets array_three_sets
  /\ Store.get store_three_sets
       (snd (practice store_three_sets array_three_sets 2)) = None
  /\ ~ In (Some (snd (practice store_three_sets array_three_sets 2)))
          array_three_sets
  /\ (forall r, (r < List.length store_three_sets)%nat ->
        Store.get (fst (practice store_three_sets array_three_sets 2)) r
        = Store.get store_three_sets r)
  /\ exists s,
       Store.get (fst (practice store_three_sets array_three_sets 2))
                 (snd (practice store_three_sets array_three_sets 2)) = Some s
       /\ (0 <= 2 < JsArray.length array_three_sets ->
           forall c, CardSet.has s c
                     = CardSet.has
                         (set_at store_three_sets array_three_sets 2) c)
       /\ (~ 0 <= 2 < JsArray.length array_three_sets -> s = []).
Proof.
  split; [exact closed_three_sets|].
  exact (practice_spec store_three_sets array_three_sets 2 closed_three_sets).
Defined.

(** ** computeProgress *)

Lemma count_loop_sums (entries : BucketMap) (total mastered : Z) :
  count_loop entries total mastered
  = (total + sum_sizes (fun _ => true) entries,
     mastered + sum_sizes (fun k => 3 <=? k) entries).
Proof.
  revert total mastered. unfold sum_sizes.
  induction entries as [|[k s] rest IH]; intros total mastered; simpl.
  - now rewrite !Z.add_0_r.
  - rewrite IH. destruct (3 <=? k); simpl; f_equal; lia.
Qed.

(** The integer [toFixed] picks is the one nearest to a hundred times the
    number, the number being [m * 2^e] with [e < 0]: it lies within a half
    of it, and it is the larger one when two integers do. *)
Lemma nearest_hundredths_spec (m : positive) (e : Z) :
  e < 0 ->
  let n := Number.nearest_hundredths m e in
  (2 * n - 1) * 2 ^ (- e) <= 2 * (Z.pos m * 100) < (2 * n + 1) * 2 ^ (- e).
Proof.
  intros He. unfold Number.nearest_hundredths.
  destruct (Z.leb_spec 0 e); [lia|]. cbv zeta.
  replace (1 - e) with (Z.succ (- e)) by lia.
  rewrite Z.pow_succ_r by lia.
  assert (P : 0 < 2 ^ (- e)) by (apply Z.pow_pos_nonneg; lia).
  set (p := 2 ^ (- e)) in *. set (x := Z.pos m * 100).
  pose proof (Z.div_mod (2 * x + p) (2 * p) ltac:(lia)) as D.
  pose proof (Z.mod_pos_bound (2 * x + p) (2 * p) ltac:(lia)) as B.
  set (q := (2 * x + p) / (2 * p)) in *. nia.
Qed.


(** The number the digits 33.33 denote. *)
Lemma number_33_33 :
  Number.parseFloat (Number.Fixed false 3333)
  = S754_finite false 4690780486883082 (-47).
Proof. vm_compute. reflexivity. Qed.

(** The percentage is rounded from the binary64 product, not from the
    exact quotient: 23 mastered cards of 160 are 14.375 percent, the
    product is just below that, and it prints as 14.37. *)
Lemma percentage_23_of_160 :
  Number.toFixed2
    (Number.mul (Number.div (Number.of_Z 23) (Number.of_Z 160))
                (Number.of_Z 100))
  = Number.Fixed false 1437
  /\ 2 * (100 * 100 * 23) = (2 * 1437 + 1) * 160.
Proof. split; vm_compute; reflexivity. Qed.

(** C8. [computeProgress] does not look at its history argument: two runs
    on the same map with any two histories return the same record. *)
Theorem computeProgress_ignores_history
  (M : BucketMap) (h1 h2 : list HistoryEntry) :
  computeProgress M h1 = computeProgress M h2.
Proof. reflexivity. Qed.

(** * Further properties of the scheduler *)

(** ** getHint *)

(** X1. The text [getHint] shows determines the hint: two cards get the
    same text only if their hints are equal, and the placeholder is shown
    for the empty hint and for no other. *)
Theorem getHint_injective :
  (forall c, getHint c = "No hint available"%string <-> hint c = EmptyString)
  /\ (forall c1 c2, getHint c1 = getHint c2 -> hint c1 = hint c2).
Proof.
  split.
  - intros c. unfold getHint. destruct (hint c) as [|a h]; simpl.
    + tauto.
    + split; discriminate.
  - intros c1 c2. unfold getHint.
    destruct (hint c1) as [|a1 h1], (hint c2) as [|a2 h2]; simpl;
      try reflexivity; try discriminate.
    intros H. injection H as -> ->. reflexivity.
Qed.

Lemma getHint_injective_witness :
  getHint card_Q1 = getHint card_Q2 /\ hint card_Q1 = hint card_Q2.
Proof.
  split; [reflexivity|].
  exact (proj2 getHint_injective card_Q1 card_Q2 eq_refl).
Defined.

(** ** update: the entries of the map *)




(** ** update: a card that is in several buckets *)





(** ** update and the counts of computeProgress *)




Lemma sum_sizes_cons p k s rest :
  sum_sizes p ((k, s) :: rest)
  = (if p k then CardSet.size s else 0) + sum_sizes p rest.
Proof. unfold sum_sizes. simpl. destruct (p k); reflexivity. Qed.





Lemma totalCards_sum M h :
  totalCards (computeProgress M h) = sum_sizes (fun _ => true) M.
Proof. unfold computeProgress. now rewrite count_loop_sums. Qed.

Lemma masteredCards_sum M h :
  masteredCards (computeProgress M h) = sum_sizes (fun k => 3 <=? k) M.
Proof. unfold computeProgress. now rewrite count_loop_sums. Qed.






(** ** update: one answer after another *)





(** ** toBucketSets on any keys *)








(** ** getBucketRange: bounds, and the range of a map *)

Lemma getBucketRange_cases (buckets : SetArray) :
  (getBucketRange buckets = None <->
   forall i, nonempty_at buckets i = false)
  /\ (forall r, getBucketRange buckets = Some r ->
        nonempty_at buckets (minBucket r) = true
        /\ nonempty_at buckets (maxBucket r) = true
        /\ (forall i, nonempty_at buckets i = true ->
                      minBucket r <= i <= maxBucket r)).
Proof.
  unfold getBucketRange.
  destruct (range_loop_spec buckets 0 None None)
    as [[N E]|[a [b [Ha [Hb [Hall E]]]]]]; rewrite E; simpl.
  - split.
    + split; [intros _|reflexivity]. intros i. rewrite nonempty_at_nth.
      destruct (i <? 0); [reflexivity|apply N].
    + discriminate.
  - split.
    + split; [discriminate|]. intros N. exfalso.
      specialize (N (Z.of_nat a)). rewrite nonempty_at_of_nat in N. congruence.
    + intros r [= <-]. simpl. rewrite !nonempty_at_of_nat.
      split; [exact Ha|]. split; [exact Hb|].
      intros i Hi. rewrite nonempty_at_nth in Hi.
      destruct (Z.ltb_spec i 0); [discriminate|].
      specialize (Hall _ Hi). lia.
Qed.

Lemma nonempty_at_in_range buckets i :
  nonempty_at buckets i = true -> 0 <= i < JsArray.length buckets.
Proof.
  unfold nonempty_at. destruct (JsArray.get buckets i) as [s|] eqn:G;
    [|discriminate].
  intros _. now apply array_get_In in G.
Qed.

(** X8. The range [getBucketRange] returns lies inside the array:
    [0 <= minBucket <= maxBucket < buckets.length]. *)
Theorem getBucketRange_in_bounds (buckets : SetArray) (r : BucketRange) :
  getBucketRange buckets = Some r ->
  0 <= minBucket r /\ minBucket r <= maxBucket r
  /\ maxBucket r < JsArray.length buckets.
Proof.
  intros H. destruct (proj2 (getBucketRange_cases buckets) r H)
    as [Hmin [Hmax Hall]].
  pose proof (nonempty_at_in_range _ _ Hmin).
  pose proof (nonempty_at_in_range _ _ Hmax).
  specialize (Hall _ Hmin). lia.
Qed.

Lemma getBucketRange_in_bounds_witness :
  getBucketRange (toBucketSets map_three_cards) = Some (mkRange 0 2)
  /\ 0 <= 0 /\ 0 <= 2
  /\ 2 < JsArray.length (toBucketSets map_three_cards).
Proof.
  split; [reflexivity|].
  exact (getBucketRange_in_bounds (toBucketSets map_three_cards)
           (mkRange 0 2) eq_refl).
Defined.




(** ** practice: the copy *)

Lemma fold_add_fresh (cards acc : CardSet.t) :
  NoDup (map oid (acc ++ cards)) ->
  fold_left CardSet.add cards acc = acc ++ cards.
Proof.
  revert acc. induction cards as [|x xs IH]; intros acc N; simpl.
  - now rewrite app_nil_r.
  - assert (H : CardSet.has acc x = false).
    { apply has_false_oid. rewrite map_app in N. simpl in N.
      apply NoDup_remove_2 in N. intros Hin. apply N.
      apply in_or_app. now left. }
    unfold CardSet.add at 2. rewrite H.
    rewrite IH; rewrite <- app_assoc; [reflexivity|exact N].
Qed.

(** X10. [practice] allocates exactly one object, and the set it returns
    holds the cards of [buckets[day]] in the same order and number (no
    card for a hole or a day outside the array). *)
Theorem practice_copies
  (st : Store.t) (buckets : list (option nat)) (day : Z) :
  Store.closed st buckets ->
  CardSet.wf (set_at st buckets day) ->
  fst (practice st buckets day) = st ++ [set_at st buckets day]
  /\ Store.get (fst (practice st buckets day))
               (snd (practice st buckets day))
     = Some (set_at st buckets day).
Proof.
  intros C Wf.
  assert (E : practice st buckets day
              = (st ++ [set_at st buckets day], List.length st)).
  { unfold practice, Store.alloc, set_at in *.
    destruct (JsArray.get buckets day) as [r|] eqn:G.
    - destruct (array_get_In _ _ _ G) as [Hin Hrange].
      destruct (Z.ltb_spec day (JsArray.length buckets)); [|lia].
      pose proof (C r Hin) as Hr. rewrite store_get_old by exact Hr.
      destruct (Store.get st r) as [cards|] eqn:Gr.
      + rewrite copy_loop. now rewrite fold_add_fresh.
      + reflexivity.
    - now destruct (day <? JsArray.length buckets). }
  rewrite E. cbn [fst snd]. split; [reflexivity|apply store_get_last].
Qed.

Lemma practice_copies_witness :
  Store.closed store_three_sets array_three_sets
  /\ CardSet.wf (set_at store_three_sets array_three_sets 2)
  /\ fst (practice store_three_sets array_three_sets 2)
     = store_three_sets ++ [set_at store_three_sets array_three_sets 2].
Proof.
  split; [exact closed_three_sets|].
  assert (W : CardSet.wf (set_at store_three_sets array_three_sets 2)).
  { unfold CardSet.wf. repeat constructor; simpl; intuition discriminate. }
  split; [exact W|].
  exact (proj1 (practice_copies store_three_sets array_three_sets 2
                  closed_three_sets W)).
Defined.

(** ** computeProgress: bounds and empty buckets *)

Lemma size_nonneg s : 0 <= CardSet.size s.
Proof. unfold CardSet.size. lia. Qed.

Lemma sum_sizes_bounds p M :
  0 <= sum_sizes p M <= sum_sizes (fun _ => true) M.
Proof.
  induction M as [|[k s] rest IH].
  - unfold sum_sizes. simpl. lia.
  - rewrite !sum_sizes_cons. pose proof (size_nonneg s).
    destruct (p k); lia.
Qed.

Lemma sum_sizes_zero M :
  sum_sizes (fun _ => true) M = 0 <-> forall k s, In (k, s) M -> s = [].
Proof.
  induction M as [|[k s] rest IH].
  - split; [intros _ k s []|reflexivity].
  - rewrite sum_sizes_cons.
    pose proof (sum_sizes_bounds (fun _ => true) rest) as B.
    pose proof (size_nonneg s) as Hs. split.
    + intros H k' s' [[= <- <-]|Hin].
      * destruct s as [|x xs]; [reflexivity|]. exfalso.
        unfold CardSet.size in H. cbn [List.length] in H. lia.
      * apply (proj1 IH) with (k := k'); [lia|exact Hin].
    + intros H. rewrite (H k s) by now left.
      rewrite (proj2 IH); [reflexivity|].
      intros k' s' Hin. apply (H k'). now right.
Qed.

(** X11. The counts of [computeProgress] are ordered:
    [0 <= masteredCards <= totalCards]. *)
Theorem computeProgress_bounds (M : BucketMap) (h : list HistoryEntry) :
  0 <= masteredCards (computeProgress M h)
  /\ masteredCards (computeProgress M h) <= totalCards (computeProgress M h).
Proof.
  rewrite masteredCards_sum, totalCards_sum.
  pose proof (sum_sizes_bounds (fun k => 3 <=? k) M). lia.
Qed.

(** X12. [totalCards] is 0 exactly when every set of the map is empty, and
    the record is then [{0, 0, 0}]: a map that has buckets but no card is
    reported like the empty map, without a division. *)
Theorem computeProgress_no_cards (M : BucketMap) (h : list HistoryEntry) :
  (totalCards (computeProgress M h) = 0 <->
   forall k s, In (k, s) M -> s = [])
  /\ (totalCards (computeProgress M h) = 0 ->
      computeProgress M h = mkProgress 0 0 (S754_zero false)).
Proof.
  rewrite totalCards_sum. split; [apply sum_sizes_zero|].
  intros H. pose proof (sum_sizes_bounds (fun k => 3 <=? k) M) as B.
  unfold computeProgress. rewrite count_loop_sums. simpl Z.add.
  rewrite H in *.
  replace (sum_sizes (fun k => 3 <=? k) M) with 0 by lia.
  reflexivity.
Qed.

Lemma computeProgress_no_cards_witness :
  totalCards (computeProgress [(0, []); (4, [])] []) = 0
  /\ computeProgress [(0, []); (4, [])] [] = mkProgress 0 0 (S754_zero false).
Proof.
  split; [reflexivity|].
  exact (proj2 (computeProgress_no_cards [(0, []); (4, [])] []) eq_refl).
Defined.

(** ** computeProgress: the order of the entries *)

Lemma sum_sizes_perm p M M' :
  Permutation M M' -> sum_sizes p M = sum_sizes p M'.
Proof.
  induction 1 as [|[k s] l l' _ IH|[k1 s1] [k2 s2] l|l1 l2 l3 _ IH1 _ IH2].
  - reflexivity.
  - now rewrite !sum_sizes_cons, IH.
  - rewrite !sum_sizes_cons. lia.
  - congruence.
Qed.

(** X13. [computeProgress] does not depend on the order in which the
    buckets were put into the map: two maps with the same entries in any
    order give the same record. *)
Theorem computeProgress_order
  (M M' : BucketMap) (h h' : list HistoryEntry) :
  Permutation M M' -> computeProgress M h = computeProgress M' h'.
Proof.
  intros P. unfold computeProgress. rewrite !count_loop_sums.
  now rewrite (sum_sizes_perm _ M M' P), (sum_sizes_perm _ M M' P).
Qed.

Lemma computeProgress_order_witness :
  Permutation map_three_cards (rev map_three_cards)
  /\ computeProgress map_three_cards []
     = computeProgress (rev map_three_cards) [].
Proof.
  split; [apply Permutation_rev|].
  exact (computeProgress_order map_three_cards (rev map_three_cards) [] []
           (Permutation_rev map_three_cards)).
Defined.

(** ** computeProgress: the ends of the percentage *)

Lemma digits2_pos_bound (p : positive) (n : Z) :
  0 <= n -> Z.pos p < 2 ^ n -> Z.pos (digits2_pos p) <= n.
Proof.
  revert n. induction p as [q IH|q IH|]; intros n Hn H; simpl.
  - assert (0 < n).
    { destruct (Z.eq_dec n 0) as [->|]; [simpl in H; lia|lia]. }
    replace n with (Z.succ (n - 1)) in H by lia.
    rewrite Z.pow_succ_r in H by lia.
    specialize (IH (n - 1) ltac:(lia) ltac:(lia)). lia.
  - assert (0 < n).
    { destruct (Z.eq_dec n 0) as [->|]; [simpl in H; lia|lia]. }
    replace n with (Z.succ (n - 1)) in H by lia.
    rewrite Z.pow_succ_r in H by lia.
    specialize (IH (n - 1) ltac:(lia) ltac:(lia)). lia.
  - destruct (Z.eq_dec n 0) as [->|]; [simpl in H; lia|lia].
Qed.

Lemma digits2_pos_iter (p k : positive) :
  digits2_pos (Pos.iter xO p k) = (digits2_pos p + k)%positive.
Proof.
  induction k as [|k IH] using Pos.peano_ind.
  - simpl. lia.
  - rewrite Pos.iter_succ. simpl. rewrite IH. lia.
Qed.

(** A count below 2^53 is a finite number: its digits are shifted up to
    53 bits and nothing is rounded away. *)
Lemma of_Z_finite (t : Z) :
  0 < t < 2 ^ 53 -> exists m e, Number.of_Z t = S754_finite false m e.
Proof.
  intros [H0 H]. destruct t as [|p|p]; try lia.
  unfold Number.of_Z, Number.prec, Number.emax, binary_normalize, binary_round.
  pose proof (digits2_pos_bound p 53 ltac:(lia) H) as D.
  set (d := digits2_pos p) in *.
  assert (F : fexp 53 1024 (Z.pos d + 0) = Z.pos d - 53).
  { unfold fexp, emin. lia. }
  rewrite F. unfold shl_align.
  destruct (Z.pos d - 53 - 0) as [|k|k] eqn:K; try lia.
  - unfold binary_round_aux, shr_fexp. cbn [Zdigits2]. fold d.
    assert (E : fexp 53 1024 (Z.pos d + 0) - 0 = 0) by (rewrite F; lia).
    rewrite E.
    cbn [shr shr_record_of_loc shr_m loc_of_shr_record round_nearest_even
         Zdigits2].
    fold d. rewrite E. cbn [shr shr_m].
    destruct (0 <=? 1024 - 53) eqn:L; [eauto|discriminate].
  - unfold binary_round_aux, shr_fexp. cbn [Zdigits2].
    rewrite digits2_pos_iter. fold d.
    assert (E : fexp 53 1024 (Z.pos (d + k) + (Z.pos d - 53))
                - (Z.pos d - 53) = 0).
    { unfold fexp, emin. lia. }
    rewrite E.
    cbn [shr shr_record_of_loc shr_m loc_of_shr_record round_nearest_even
         Zdigits2].
    rewrite digits2_pos_iter. fold d. rewrite E. cbn [shr shr_m].
    destruct (Z.leb_spec (Z.pos d - 53) (1024 - 53)); [eauto|lia].
Qed.

(** A finite number divided by itself is 1. *)
Lemma div_same (m : positive) (e : Z) :
  Number.div (S754_finite false m e) (S754_finite false m e)
  = S754_finite false 4503599627370496 (-52).
Proof.
  unfold Number.div, Number.prec, Number.emax, SFdiv, SFdiv_core_binary.
  cbv zeta.
  replace (Zdigits2 (Z.pos m) + e - (Zdigits2 (Z.pos m) + e)) with 0 by lia.
  replace (e - e) with 0 by lia.
  change (Z.min (fexp 53 1024 0) 0) with (-53).
  change (0 - -53) with 53.
  destruct (Z.div_eucl (Z.shiftl (Z.pos m) 53) (Z.pos m)) as [q r] eqn:E.
  assert (Hq : q = 2 ^ 53).
  { change q with (fst (q, r)). rewrite <- E.
    fold (Z.div (Z.shiftl (Z.pos m) 53) (Z.pos m)).
    rewrite Z.shiftl_mul_pow2 by lia. rewrite Z.mul_comm.
    apply Z.div_mul. lia. }
  assert (Hr : r = 0).
  { change r with (snd (q, r)). rewrite <- E.
    fold (Z.modulo (Z.shiftl (Z.pos m) 53) (Z.pos m)).
    rewrite Z.shiftl_mul_pow2 by lia. rewrite Z.mul_comm.
    apply Z.mod_mul. lia. }
  subst q r. unfold new_location.
  destruct (Z.even (Z.pos m)); vm_compute; reflexivity.
Qed.

Lemma masteryPercentage_sum M h :
  masteryPercentage (computeProgress M h)
  = Number.parseFloat
      (Number.toFixed2
         (if 0 <? sum_sizes (fun _ => true) M
          then Number.mul
                 (Number.div
                    (Number.of_Z (sum_sizes (fun k => 3 <=? k) M))
                    (Number.of_Z (sum_sizes (fun _ => true) M)))
                 (Number.of_Z 100)
          else Number.of_Z 0)).
Proof. unfold computeProgress. now rewrite count_loop_sums. Qed.

(** X14. With at least one card (and fewer than 2^53), the percentage is
    exactly 0 when no card is mastered and exactly 100 when every card
    is. *)
Theorem masteryPercentage_ends (M : BucketMap) (h : list HistoryEntry) :
  0 < totalCards (computeProgress M h) < 2 ^ 53 ->
  (masteredCards (computeProgress M h) = 0 ->
   masteryPercentage (computeProgress M h) = Number.of_Z 0)
  /\ (masteredCards (computeProgress M h) = totalCards (computeProgress M h) ->
      masteryPercentage (computeProgress M h) = Number.of_Z 100).
Proof.
  rewrite masteryPercentage_sum, masteredCards_sum, totalCards_sum.
  intros T. destruct (of_Z_finite _ T) as [m [e F]].
  destruct (Z.ltb_spec 0 (sum_sizes (fun _ => true) M)); [|lia].
  split; intros ->.
  - rewrite F. vm_compute. reflexivity.
  - rewrite F, div_same. vm_compute. reflexivity.
Qed.

Lemma masteryPercentage_ends_witness :
  0 < totalCards (computeProgress map_three_cards []) < 2 ^ 53
  /\ masteredCards (computeProgress map_three_cards []) = 0
  /\ masteryPercentage (computeProgress map_three_cards []) = Number.of_Z 0.
Proof.
  assert (T : 0 < totalCards (computeProgress map_three_cards []) < 2 ^ 53)
    by (vm_compute; split; reflexivity).
  split; [exact T|]. split; [reflexivity|].
  exact (proj1 (masteryPercentage_ends map_three_cards [] T) eq_refl).
Defined.

(** ** update: no card is lost *)

(** X15. [update] drops no card from the map: a card that was in some
    bucket is in some bucket afterwards, whatever the map and the
    answer. *)
Theorem update_keeps_cards
  (M : BucketMap) (c c' : Flashcard) (d : AnswerDifficulty) (k : Z) :
  in_bucket M k c' = true ->
  exists k', in_bucket (update M c d) k' c' = true.
Proof.
  intros H. destruct (same_object c' c) eqn:E.
  - exists (new_bucket (current_bucket M c) d).
    rewrite in_bucket_update, Z.eqb_refl, E. reflexivity.
  - exists k. rewrite in_bucket_update_other; [exact H|].
    now apply Nat.eqb_neq.
Qed.

Lemma update_keeps_cards_witness :
  in_bucket map_Q1_twice 3 card_Q1 = true
  /\ exists k', in_bucket (update map_Q1_twice card_Q2 Easy) k' card_Q1 = true.
Proof.
  split; [reflexivity|].
  exact (update_keeps_cards map_Q1_twice card_Q2 card_Q1 Easy 3 eq_refl).
Defined.

(** ** update, then toBucketSets *)




